(** * Edamorph: the navigation registry of
      [frontend/src/components/navigation/NavigationLinks.ts]

    The module declares one type, [MenuGroup], and exports one constant,
    [menuGroups], an array literal of three groups of five links each.
    This file embeds the type and the literal, then a small model of the
    module's evaluation, of a read of its export and of a write an importer
    makes through it.

    Strings.  A TypeScript string is a sequence of UTF-16 code units; the
    source file stores its literals in UTF-8.  A literal is embedded as the
    [string] of the bytes it has in the source file.  On well-formed text
    UTF-8 and UTF-16 are both injective encodings of the same code points,
    so equality of the byte strings is the [===] of the script, and a prefix
    made of ASCII characters is a prefix in either encoding.  *)

From Stdlib Require Import List String Ascii Bool Arith Lia.
Import ListNotations.
Open Scope string_scope.

(** ** Data model *)

(** The element type of [MenuGroup.links], anonymous in the source:
    [{ label: string; href: string; icon?: string }].  An optional property
    left out of an object literal is [None]. *)
Module Link.

Record t : Type := mk
  { label : string
  ; href  : string
  ; icon  : option string }.

End Link.

(** [export type MenuGroup = { title; icon?; links }]. *)
Record MenuGroup : Type := mkMenuGroup
  { title : string
  ; icon  : option string
  ; links : list Link.t }.

(** An object literal [{ label: l, href: h }] of the source. *)
Definition link (l h : string) : Link.t := Link.mk l h None.

(** ** The exported literal *)

Definition menuGroups : list MenuGroup :=
  [ {| title := "Correlations"
     ; icon  := Some "🔗"
     ; links :=
         [ link "Full Matrix" "/correlation/matrix"
         ; link "Pairwise Metrics" "/correlation/pairwise"
         ; link "Cramér's V" "/correlation/cramers-v"
         ; link "Correlation Ratio (η²)" "/correlation/eta"
         ; link "Feature Heatmap" "/correlation/heatmap" ] |}
  ; {| title := "Transformations"
     ; icon  := Some "🔧"
     ; links :=
         [ link "Column Transformations" "/transformations/columns"
         ; link "Normalizations" "/transformations/normalize"
         ; link "Encodings" "/transformations/encodings"
         ; link "Feature Engineering" "/transformations/feature-eng"
         ; link "Generated SQL" "/transformations/sql-preview" ] |}
  ; {| title := "Distributions"
     ; icon  := Some "📊"
     ; links :=
         [ link "Histogram" "/distributions/histogram"
         ; link "Box Plot" "/distributions/boxplot"
         ; link "Quantiles" "/distributions/quantiles"
         ; link "Outliers" "/distributions/outliers"
         ; link "KDE" "/distributions/kde" ] |} ].

(** ** Views of the registry used by the statements *)

(** The [(label, href)] pair of a link. *)
Definition labelHref (l : Link.t) : string * string :=
  (Link.label l, Link.href l).

(** The groups of [gs] whose title is [t], in order. *)
Definition groupsTitled (t : string) (gs : list MenuGroup) : list MenuGroup :=
  filter (fun g => title g =? t) gs.

(** All links of all groups, in order of appearance. *)
Definition allLinks (gs : list MenuGroup) : list Link.t :=
  flat_map links gs.

(** Decidable distinctness of a list of strings. *)
Fixpoint distinctb (l : list string) : bool :=
  match l with
  | [] => true
  | x :: r => negb (existsb (String.eqb x) r) && distinctb r
  end.

(** ** Module evaluation, reads of the export and writes through it

    The module body is the single statement [export const menuGroups = ...].
    Evaluating it allocates the array the literal denotes and binds the
    constant to a reference to that array.  Before the body has run the
    binding is uninitialised and a use of it throws [ReferenceError].  A
    module is evaluated on its first import only; later imports find it in
    the module map.  The specification calls a read of the export
    [getMenuGroups]: it hands out the reference itself, not a copy.

    [const] forbids rebinding only.  The declared type [MenuGroup[]] is not
    [readonly] and the array is not frozen, so an importer may write through
    the reference: [menuGroups.reverse()], [menuGroups.pop()],
    [menuGroups[0].title = ...].  Whatever such a statement does to the
    array, to its groups or to their links is a function from the old
    content to the new one, which is how a write is given here. *)

Inductive binding (A : Type) : Type :=
| Uninitialised
| Initialised (v : A).
Arguments Uninitialised {A}.
Arguments Initialised {A} v.

(** A reference to an array of groups: its address in the heap. *)
Definition ref : Type := nat.

(** The arrays allocated so far; the address of one is its position. *)
Definition Heap : Type := list (list MenuGroup).

Record Env : Type := mkEnv
  { env_menuGroups : binding ref
  ; env_heap : Heap }.

Inductive outcome : Type :=
| Done
| Returned (r : ref)
| ReferenceError.

Inductive op : Type :=
| OpImport
| OpGet
| OpWrite (f : list MenuGroup -> list MenuGroup).

(** The array a reference points to. *)
Definition deref (e : Env) (r : ref) : option (list MenuGroup) :=
  nth_error (env_heap e) r.

(** The heap with [f] applied in place to the array at [r]. *)
Fixpoint update (r : ref) (f : list MenuGroup -> list MenuGroup) (h : Heap)
  : Heap :=
  match h, r with
  | [], _ => []
  | gs :: h', 0 => f gs :: h'
  | gs :: h', S r' => gs :: update r' f h'
  end.

(** No module evaluated yet. *)
Definition unloaded : Env := mkEnv Uninitialised [].

(** The module body: the literal is allocated at a fresh address and the
    constant is bound to it. *)
Definition evalModule (e : Env) : Env :=
  mkEnv (Initialised (List.length (env_heap e))) (env_heap e ++ [menuGroups])%list.

Definition importModule (e : Env) : Env :=
  match env_menuGroups e with
  | Uninitialised => evalModule e
  | Initialised _ => e
  end.

Definition getMenuGroups (e : Env) : Env * outcome :=
  match env_menuGroups e with
  | Uninitialised => (e, ReferenceError)
  | Initialised r => (e, Returned r)
  end.

(** A statement of an importer that mutates the exported array in place. *)
Definition writeThrough (f : list MenuGroup -> list MenuGroup) (e : Env)
  : Env * outcome :=
  match env_menuGroups e with
  | Uninitialised => (e, ReferenceError)
  | Initialised r => (mkEnv (Initialised r) (update r f (env_heap e)), Done)
  end.

Definition step (e : Env) (o : op) : Env * outcome :=
  match o with
  | OpImport => (importModule e, Done)
  | OpGet => getMenuGroups e
  | OpWrite f => writeThrough f e
  end.

(** Runs a trace of operations, oldest first; the outcomes come in the same
    order. *)
Fixpoint run (e : Env) (t : list op) : Env * list outcome :=
  match t with
  | [] => (e, [])
  | o :: t' =>
      let (e1, r) := step e o in
      let (e2, rs) := run e1 t' in
      (e2, r :: rs)
  end.

(** The environment once the module has been imported. *)
Definition loaded : Env := importModule unloaded.

(** What a read returns when it follows the trace [t] on [loaded]. *)
Definition callAfter (t : list op) : outcome :=
  snd (step (fst (run loaded t)) OpGet).



(** The effect of one operation, and of a trace, on the content of the
    exported array: only writes have one. *)
Definition writeOf (o : op) : list MenuGroup -> list MenuGroup :=
  match o with
  | OpWrite f => f
  | _ => fun gs => gs
  end.

Definition writes (t : list op) (gs : list MenuGroup) : list MenuGroup :=
  fold_left (fun acc o => writeOf o acc) t gs.



(** An environment whose constant is bound to a live array. *)
Definition bound (e : Env) (r : ref) (gs : list MenuGroup) : Prop :=
  env_menuGroups e = Initialised r /\ deref e r = Some gs.

(** ** Views of the hrefs *)

(** The pieces of [s] between occurrences of [c], as [s.split(c)] of the
    script gives them: the empty string has one empty piece. *)
Fixpoint splitOn (c : ascii) (s : string) : list string :=
  match s with
  | EmptyString => [EmptyString]
  | String d r =>
      if Ascii.eqb d c then EmptyString :: splitOn c r
      else
        match splitOn c r with
        | [] => [String d EmptyString]
        | w :: ws => String d w :: ws
        end
  end.

(** The pieces joined again with [c] between them. *)
Fixpoint joinWith (c : ascii) (ws : list string) : string :=
  match ws with
  | [] => EmptyString
  | [w] => w
  | w :: ws' => w ++ String c (joinWith c ws')
  end.

(** Every character of [s] satisfies [p]. *)
Fixpoint allChars (p : ascii -> bool) (s : string) : bool :=
  match s with
  | EmptyString => true
  | String c r => p c && allChars p r
  end.

(** A lower-case ASCII letter, a hyphen or a slash. *)
Definition pathChar (c : ascii) : bool :=
  let n := nat_of_ascii c in
  (Nat.leb 97 n && Nat.leb n 122) || Ascii.eqb c "-" || Ascii.eqb c "/".

(** [h] is ["/a/b"] with [a] and [b] non-empty and free of slashes. *)
Definition twoSegments (h : string) : bool :=
  match splitOn "/" h with
  | [e; a; b] =>
      String.eqb e "" && negb (String.eqb a "") && negb (String.eqb b "")
  | _ => false
  end.

(** * Properties *)

(** ** Helper lemmas *)

Lemma existsb_eqb_In (x : string) (l : list string) :
  existsb (String.eqb x) l = true <-> In x l.
Proof.
  rewrite existsb_exists. split.
  - intros [y [Hy Heq]]. apply String.eqb_eq in Heq. now subst.
  - intros H. exists x. split; [exact H | apply String.eqb_refl].
Qed.

Lemma distinctb_NoDup (l : list string) :
  distinctb l = true -> NoDup l.
Proof.
  induction l as [|x r IH]; simpl; intros H.
  - constructor.
  - apply andb_true_iff in H. destruct H as [Hx Hr].
    constructor.
    + intros Hin. apply existsb_eqb_In in Hin.
      rewrite Hin in Hx. discriminate.
    + now apply IH.
Qed.

(** Two positions of a list whose images under [f] are free of duplicates
    carry different images. *)
Lemma NoDup_map_nth_error {A B : Type} (f : A -> B) (l : list A)
    (i j : nat) (a b : A) :
  NoDup (map f l) ->
  nth_error l i = Some a -> nth_error l j = Some b ->
  i <> j -> f a <> f b.
Proof.
  intros Hnd Hi Hj Hij Heq.
  apply Hij.
  apply (proj1 (NoDup_nth_error (map f l)) Hnd).
  - rewrite length_map. apply nth_error_Some. now rewrite Hi.
  - rewrite !nth_error_map, Hi, Hj. simpl. now rewrite Heq.
Qed.

(** [String.prefix] is "begins with". *)
Lemma prefix_iff_append (p s : string) :
  String.prefix p s = true <-> exists r, s = p ++ r.
Proof.
  revert s. induction p as [|c p IH]; intros s; simpl.
  - split; [intros _; now exists s | destruct s; reflexivity].
  - destruct s as [|d s].
    + split; [discriminate | intros [r Hr]; discriminate].
    + simpl. destruct (Ascii.ascii_dec c d) as [Heq|Hne].
      * subst d. split.
        -- intros H. apply IH in H. destruct H as [r Hr].
           exists r. now rewrite Hr.
        -- intros [r Hr]. apply IH. exists r. now inversion Hr.
      * split; [discriminate | intros [r Hr]; inversion Hr; congruence].
Qed.

(** *** The trace model *)

Lemma nth_error_update (r : ref) (f : list MenuGroup -> list MenuGroup)
    (h : Heap) :
  nth_error (update r f h) r = option_map f (nth_error h r).
Proof.
  revert r. induction h as [|gs h IH]; intros [|r]; simpl; auto.
Qed.

Lemma loaded_bound : bound loaded 0 menuGroups.
Proof. split; reflexivity. Qed.

(** One operation keeps the binding; the array changes by the write the
    operation makes, if it makes one; the outcome is never an error, and a
    read hands out the bound reference. *)
Lemma step_bound (e : Env) (r : ref) (gs : list MenuGroup) (o : op) :
  bound e r gs ->
  bound (fst (step e o)) r (writeOf o gs) /\
  snd (step e o) <> ReferenceError /\
  (o = OpGet -> snd (step e o) = Returned r).
Proof.
  intros [Hb Hd]. unfold bound, deref in *.
  destruct o as [| |f]; simpl;
    unfold importModule, getMenuGroups, writeThrough; rewrite Hb; simpl.
  - repeat split; auto; discriminate.
  - repeat split; auto; discriminate.
  - rewrite nth_error_update, Hd. repeat split; auto; discriminate.
Qed.


Lemma run_bound (t : list op) :
  forall (e : Env) (r : ref) (gs : list MenuGroup),
    bound e r gs ->
    bound (fst (run e t)) r (writes t gs) /\
    Forall (fun x => x <> ReferenceError) (snd (run e t)).
Proof.
  induction t as [|o t IH]; intros e r gs Hb; simpl.
  - split; [exact Hb | constructor].
  - destruct (step_bound e r gs o Hb) as [Hb1 [Hne _]].
    destruct (step e o) as [e1 x]. simpl in Hb1, Hne.
    destruct (IH e1 r (writeOf o gs) Hb1) as [Hb2 Hall].
    destruct (run e1 t) as [e2 xs]. simpl in *.
    split; [exact Hb2 | constructor; assumption].
Qed.



(** After any trace the constant is still bound to the array the module
    body allocated, which holds the literal with the writes of the trace
    applied in order. *)
Lemma run_loaded_bound (t : list op) :
  bound (fst (run loaded t)) 0 (writes t menuGroups).
Proof. exact (proj1 (run_bound t loaded 0 menuGroups loaded_bound)). Qed.

(** Every read hands out the same reference. *)
Lemma callAfter_ref (t : list op) : callAfter t = Returned 0.
Proof.
  unfold callAfter.
  destruct (step_bound _ _ _ OpGet (run_loaded_bound t)) as [_ [_ H]].
  now apply H.
Qed.


(** ** The authored content *)

(** C1: the registry holds exactly three groups, titled "Correlations",
    "Transformations" and "Distributions", in that order. *)
Theorem menuGroups_titles :
  List.length menuGroups = 3 /\
  map title menuGroups = ["Correlations"; "Transformations"; "Distributions"].
Proof. split; reflexivity. Qed.

(** C2: exactly one group is titled "Correlations"; it has exactly five
    links, whose (label, href) pairs are the listed ones, in order. *)
Theorem correlations_links :
  exists g,
    groupsTitled "Correlations" menuGroups = [g] /\
    List.length (links g) = 5 /\
    map labelHref (links g) =
      [ ("Full Matrix", "/correlation/matrix")
      ; ("Pairwise Metrics", "/correlation/pairwise")
      ; ("Cramér's V", "/correlation/cramers-v")
      ; ("Correlation Ratio (η²)", "/correlation/eta")
      ; ("Feature Heatmap", "/correlation/heatmap") ].
Proof.
  eexists. split; [reflexivity|]. split; reflexivity.
Qed.

(** C3: exactly one group is titled "Transformations"; it has exactly five
    links, every href of which begins with "/transformations/", and its
    labels and hrefs are those of the source literal, in order. *)
Theorem transformations_links :
  exists g,
    groupsTitled "Transformations" menuGroups = [g] /\
    List.length (links g) = 5 /\
    Forall (fun l => String.prefix "/transformations/" (Link.href l) = true)
           (links g) /\
    map labelHref (links g) =
      [ ("Column Transformations", "/transformations/columns")
      ; ("Normalizations", "/transformations/normalize")
      ; ("Encodings", "/transformations/encodings")
      ; ("Feature Engineering", "/transformations/feature-eng")
      ; ("Generated SQL", "/transformations/sql-preview") ].
Proof.
  eexists. split; [reflexivity|]. split; [reflexivity|].
  split; [|reflexivity].
  repeat (apply Forall_cons; [reflexivity|]). apply Forall_nil.
Qed.

(** C4: exactly one group is titled "Distributions"; it has exactly five
    links, every href of which begins with "/distributions/", and its labels
    and hrefs are those of the source literal, in order. *)
Theorem distributions_links :
  exists g,
    groupsTitled "Distributions" menuGroups = [g] /\
    List.length (links g) = 5 /\
    Forall (fun l => String.prefix "/distributions/" (Link.href l) = true)
           (links g) /\
    map labelHref (links g) =
      [ ("Histogram", "/distributions/histogram")
      ; ("Box Plot", "/distributions/boxplot")
      ; ("Quantiles", "/distributions/quantiles")
      ; ("Outliers", "/distributions/outliers")
      ; ("KDE", "/distributions/kde") ].
Proof.
  eexists. split; [reflexivity|]. split; [reflexivity|].
  split; [|reflexivity].
  repeat (apply Forall_cons; [reflexivity|]). apply Forall_nil.
Qed.

(** ** Reads of the export *)




(** C6: once the module is imported no operation fails: no outcome of any
    trace is [ReferenceError], and a read after any trace returns a
    reference to a live array. *)
Theorem getMenuGroups_never_fails (t : list op) :
  Forall (fun r => r <> ReferenceError) (snd (run unloaded (OpImport :: t))) /\
  exists r gs,
    callAfter t = Returned r /\ deref (fst (run loaded t)) r = Some gs.
Proof.
  split.
  - change (run unloaded (OpImport :: t))
      with (let (e2, rs) := run loaded t in (e2, Done :: rs)).
    pose proof (proj2 (run_bound t loaded 0 menuGroups loaded_bound)) as H.
    destruct (run loaded t) as [e2 rs]. simpl in *.
    constructor; [discriminate | exact H].
  - exists 0, (writes t menuGroups). split.
    + apply callAfter_ref.
    + exact (proj2 (run_loaded_bound t)).
Qed.




(** ** Invariants of the authored data *)

Lemma titles_NoDup : NoDup (map title menuGroups).
Proof. apply distinctb_NoDup. reflexivity. Qed.

(** C8: two groups at different positions of the registry have different
    titles. *)
Theorem titles_pairwise_distinct (i j : nat) (g1 g2 : MenuGroup) :
  nth_error menuGroups i = Some g1 ->
  nth_error menuGroups j = Some g2 ->
  i <> j ->
  title g1 <> title g2.
Proof.
  apply NoDup_map_nth_error. exact titles_NoDup.
Qed.

(** The first and the third group, as an instance. *)
Lemma titles_pairwise_distinct_witness :
  exists g1 g2,
    nth_error menuGroups 0 = Some g1 /\
    nth_error menuGroups 2 = Some g2 /\
    0 <> 2 /\
    title g1 <> title g2.
Proof.
  eexists. eexists.
  split; [reflexivity|]. split; [reflexivity|]. split; [lia|].
  apply (titles_pairwise_distinct 0 2); [reflexivity | reflexivity | lia].
Defined.

(** C9: the registry has 15 links in all; their hrefs are pairwise distinct
    and each begins with "/". *)
Theorem hrefs_distinct_rooted :
  List.length (allLinks menuGroups) = 15 /\
  NoDup (map Link.href (allLinks menuGroups)) /\
  Forall (fun l => String.prefix "/" (Link.href l) = true)
         (allLinks menuGroups).
Proof.
  split; [reflexivity|]. split.
  - apply distinctb_NoDup. reflexivity.
  - repeat (apply Forall_cons; [reflexivity|]). apply Forall_nil.
Qed.

(** C10: each of the three groups has its icon set, to "🔗", "🔧" and "📊" in
    that order, and none of the 15 links has one. *)
Theorem icon_population :
  map icon menuGroups = [Some "🔗"; Some "🔧"; Some "📊"] /\
  List.length (allLinks menuGroups) = 15 /\
  Forall (fun l => Link.icon l = None) (allLinks menuGroups).
Proof.
  split; [reflexivity|]. split; [reflexivity|].
  repeat (apply Forall_cons; [reflexivity|]). apply Forall_nil.
Qed.

(** ** Further invariants of the authored data *)

Lemma splitOn_nonempty (c : ascii) (s : string) : splitOn c s <> [].
Proof.
  destruct s as [|d r]; simpl; [discriminate|].
  destruct (Ascii.eqb d c); [discriminate|].
  destruct (splitOn c r); discriminate.
Qed.

(** Splitting and joining again gives the string back. *)
Lemma joinWith_splitOn (c : ascii) (s : string) :
  joinWith c (splitOn c s) = s.
Proof.
  induction s as [|d r IH]; simpl; [reflexivity|].
  destruct (Ascii.eqb d c) eqn:Hdc.
  - apply Ascii.eqb_eq in Hdc. subst d.
    pose proof (splitOn_nonempty c r) as Hne.
    destruct (splitOn c r) as [|w ws]; [contradiction|].
    simpl. simpl in IH. now rewrite IH.
  - pose proof (splitOn_nonempty c r) as Hne.
    destruct (splitOn c r) as [|w ws]; [contradiction|].
    destruct ws as [|w' ws]; simpl in *; now rewrite <- IH.
Qed.

(** What [twoSegments] decides. *)
Lemma twoSegments_shape (h : string) :
  twoSegments h = true ->
  exists a b, h = "/" ++ a ++ "/" ++ b /\ a <> "" /\ b <> "".
Proof.
  unfold twoSegments. intros H.
  pose proof (joinWith_splitOn "/" h) as Hj.
  destruct (splitOn "/" h) as [|e [|a [|b [|x xs]]]]; try discriminate.
  apply andb_true_iff in H. destruct H as [H Hb].
  apply andb_true_iff in H. destruct H as [He Ha].
  apply String.eqb_eq in He. subst e.
  exists a, b. split; [|split].
  - rewrite <- Hj. reflexivity.
  - intros ->. discriminate.
  - intros ->. discriminate.
Qed.

(** Where [f] has no duplicate image on a list, it is injective on it. *)
Lemma NoDup_map_inj_In {A B : Type} (f : A -> B) (l : list A) (a b : A) :
  NoDup (map f l) -> In a l -> In b l -> f a = f b -> a = b.
Proof.
  induction l as [|x l IH]; simpl; intros Hnd Ha Hb Heq; [contradiction|].
  inversion Hnd as [|y ys Hnotin Hnd']; subst.
  destruct Ha as [Ha|Ha], Hb as [Hb|Hb].
  - congruence.
  - subst x. exfalso. apply Hnotin. rewrite Heq. now apply in_map.
  - subst x. exfalso. apply Hnotin. rewrite <- Heq. now apply in_map.
  - now apply IH.
Qed.

(** The two halves of a duplicate-free concatenation share no element. *)
Lemma NoDup_app_disjoint {A : Type} (l1 l2 : list A) :
  NoDup (l1 ++ l2) -> forall a, In a l1 -> ~ In a l2.
Proof.
  induction l1 as [|x l1 IH]; simpl; intros Hnd a Ha; [contradiction|].
  inversion Hnd as [|y ys Hnotin Hnd']; subst.
  destruct Ha as [->|Ha].
  - intros Hin. apply Hnotin. apply in_or_app. now right.
  - now apply IH.
Qed.

(** In any registry whose hrefs are free of duplicates, an href is a key:
    two links with the same href sit in the same group and are the same
    link. *)
Lemma href_key_of_NoDup (gs : list MenuGroup) :
  NoDup (map Link.href (allLinks gs)) ->
  forall (i j : nat) (g1 g2 : MenuGroup) (l1 l2 : Link.t),
    nth_error gs i = Some g1 -> nth_error gs j = Some g2 ->
    In l1 (links g1) -> In l2 (links g2) ->
    Link.href l1 = Link.href l2 ->
    i = j /\ l1 = l2.
Proof.
  induction gs as [|g gs IH]; intros Hnd i j g1 g2 l1 l2 Hi Hj H1 H2 Heq.
  - destruct i; discriminate.
  - unfold allLinks in Hnd. simpl in Hnd. rewrite map_app in Hnd.
    pose proof (NoDup_app_remove_r _ _ Hnd) as Hg.
    pose proof (NoDup_app_remove_l _ _ Hnd) as Hgs.
    pose proof (NoDup_app_disjoint _ _ Hnd) as Hdisj.
    assert (Hrest : forall k g' l', nth_error gs k = Some g' ->
              In l' (links g') ->
              In (Link.href l') (map Link.href (flat_map links gs))).
    { intros k g' l' Hk Hl'. apply in_map. apply in_flat_map.
      exists g'. split; [eapply nth_error_In; exact Hk | exact Hl']. }
    destruct i as [|i], j as [|j]; simpl in Hi, Hj.
    + inversion Hi; inversion Hj; subst. split; [reflexivity|].
      exact (NoDup_map_inj_In Link.href (links g2) l1 l2 Hg H1 H2 Heq).
    + inversion Hi; subst. exfalso.
      apply (Hdisj (Link.href l1)); [now apply in_map|].
      rewrite Heq. eapply Hrest; eauto.
    + inversion Hj; subst. exfalso.
      apply (Hdisj (Link.href l2)); [now apply in_map|].
      rewrite <- Heq. eapply Hrest; eauto.
    + destruct (IH Hgs i j g1 g2 l1 l2 Hi Hj H1 H2 Heq) as [-> ->].
      split; reflexivity.
Qed.

Lemma hrefs_NoDup : NoDup (map Link.href (allLinks menuGroups)).
Proof. apply distinctb_NoDup. reflexivity. Qed.

(** X1: an href is a key of the whole registry: two links with the same
    href, taken from the groups at positions [i] and [j], are in the same
    group and are the same link. *)
Theorem href_is_key (i j : nat) (g1 g2 : MenuGroup) (l1 l2 : Link.t) :
  nth_error menuGroups i = Some g1 ->
  nth_error menuGroups j = Some g2 ->
  In l1 (links g1) -> In l2 (links g2) ->
  Link.href l1 = Link.href l2 ->
  i = j /\ l1 = l2.
Proof.
  apply href_key_of_NoDup. exact hrefs_NoDup.
Qed.

(** The link to the histogram page, found twice in the third group. *)
Lemma href_is_key_witness :
  exists g l,
    nth_error menuGroups 2 = Some g /\
    In l (links g) /\
    Link.href l = "/distributions/histogram" /\
    2 = 2 /\ l = l.
Proof.
  eexists. exists (link "Histogram" "/distributions/histogram").
  split; [reflexivity|]. split; [simpl; auto|]. split; [reflexivity|].
  apply (href_is_key 2 2 _ _ _ _ eq_refl eq_refl);
    [simpl; auto | simpl; auto | reflexivity].
Defined.

(** X2: the labels of the 15 links are pairwise distinct, across groups as
    well as within one. *)
Theorem labels_distinct :
  NoDup (map Link.label (allLinks menuGroups)).
Proof. apply distinctb_NoDup. reflexivity. Qed.

(** X3: every href is a path of exactly two non-empty segments, ["/a/b"],
    written with lower-case ASCII letters, hyphens and slashes only. *)
Theorem hrefs_path_shape :
  Forall (fun l => twoSegments (Link.href l) = true /\
                   allChars pathChar (Link.href l) = true)
         (allLinks menuGroups).
Proof.
  repeat (apply Forall_cons; [split; reflexivity|]). apply Forall_nil.
Qed.

(** X4: the first path segment tells the group: the links of the registry
    whose href begins with "/correlation/", "/transformations/" and
    "/distributions/" are exactly the links of the first, second and third
    group, in order. *)
Theorem section_prefix_partition :
  Forall2
    (fun g p =>
       filter (fun l => String.prefix p (Link.href l)) (allLinks menuGroups)
       = links g)
    menuGroups
    ["/correlation/"; "/transformations/"; "/distributions/"].
Proof.
  repeat (apply Forall2_cons; [reflexivity|]). apply Forall2_nil.
Qed.
